(** * ServerSearch: the command-palette search box of the chat application

    A shallow embedding of [src/components/server/server-search.tsx] and the
    properties its specification states about it.

    The component is a React function component.  It owns one [useState]
    cell ([open], initially [false]) and returns a JSX tree: a trigger
    button and a [CommandDialog] holding a search input, a results list
    with the empty-state element, and one [CommandGroup] per group of the
    input that has items.

    Layout:
    - [Jsx]          the element tree a render returns, and how React lays
                     children out (arrays are spliced, null and undefined
                     are dropped);
    - data model     [SearchItem], [SearchGroup];
    - the view       [ServerSearch_view], the JSX expression of the source;
    - the component  [ServerSearch], the same code with its effects written
                     out (reads of the props, the hook cell, failure of a
                     member access on [undefined]);
    - interaction    [step], gestures dispatched to the handlers found in
                     the rendered tree; [session], renders and gestures in
                     sequence on a store;
    - theorems. *)

From stdpp Require Import base option list list_monad strings gmap.

Open Scope string_scope.
Open Scope list_scope.

(** ** JSX trees *)

(** Components referenced by the source (capitalised JSX names). *)
Inductive Component :=
  | SearchIcon
  | CommandDialog
  | CommandEmpty
  | CommandGroup
  | CommandInput
  | CommandItem
  | CommandList.

(** A JSX element type: a host element ([<button>], [<p>], ...) is named by
    a string, a component by reference. *)
Inductive Tag :=
  | Host (name : string)
  | Comp (c : Component).

(** The two closures the component hands out.
    [Cb_setOpen_true] is [() => setOpen(true)] (line 34);
    [Cb_setOpen] is the state setter [setOpen] itself (line 45). *)
Inductive Callback :=
  | Cb_setOpen_true
  | Cb_setOpen.

Inductive PropValue :=
  | PStr (s : string)
  | PBool (b : bool)
  | PFun (cb : Callback).

(** [React.ReactNode] values supplied by the caller (the icons) are embedded
    by the component and never inspected: they are opaque handles here.  A
    caller cannot mention [setOpen], which is local to the component. *)
Definition ReactNode := nat.

#[warnings="-register-all"] Inductive Node :=
  | NNull
  | NUndefined
  | NText (s : string)
  | NOpaque (h : ReactNode)
  | NArray (l : list Node)
  | NFragment (children : list Node)
  | NElem (t : Tag) (key : option string)
          (props : list (string * PropValue)) (children : list Node).

Global Instance Component_eq_dec : EqDecision Component.
Proof. solve_decision. Defined.
Global Instance Tag_eq_dec : EqDecision Tag.
Proof. solve_decision. Defined.
Global Instance Callback_eq_dec : EqDecision Callback.
Proof. solve_decision. Defined.
Global Instance PropValue_eq_dec : EqDecision PropValue.
Proof. solve_decision. Defined.

Module Jsx.

(** How React lays out a child expression: [null] and [undefined] render
    nothing, arrays and fragments are spliced in place, in order. *)
Fixpoint flatten (n : Node) : list Node :=
  match n with
  | NNull | NUndefined => []
  | NArray l => concat (map flatten l)
  | NFragment l => concat (map flatten l)
  | _ => [n]
  end.

Definition laid_out (children : list Node) : list Node :=
  concat (map flatten children).

Definition tag_of (n : Node) : option Tag :=
  match n with NElem t _ _ _ => Some t | _ => None end.

Definition key_of (n : Node) : option string :=
  match n with NElem _ k _ _ => k | _ => None end.

Definition props_of (n : Node) : list (string * PropValue) :=
  match n with NElem _ _ ps _ => ps | _ => [] end.

(** The children an element shows, after layout. *)
Definition children_of (n : Node) : list Node :=
  match n with
  | NElem _ _ _ cs => laid_out cs
  | NFragment cs => laid_out cs
  | NArray cs => laid_out cs
  | _ => []
  end.

Definition is_tag (t : Tag) (n : Node) : bool :=
  bool_decide (tag_of n = Some t).

(** First value bound to a prop name. *)
Fixpoint prop (x : string) (ps : list (string * PropValue)) : option PropValue :=
  match ps with
  | [] => None
  | (y, v) :: ps' => if bool_decide (x = y) then Some v else prop x ps'
  end.

(** Every function-valued prop in a tree, with the tag of the element
    that carries it and the prop's name. *)
Definition own_handlers (t : Tag) (ps : list (string * PropValue))
  : list (Tag * string * Callback) :=
  omap (fun xv => match snd xv with
                  | PFun cb => Some (t, fst xv, cb)
                  | _ => None
                  end) ps.

Fixpoint handlers (n : Node) : list (Tag * string * Callback) :=
  match n with
  | NElem t _ ps cs => own_handlers t ps ++ concat (map handlers cs)
  | NArray l => concat (map handlers l)
  | NFragment l => concat (map handlers l)
  | _ => []
  end.

(** Every element of a tree (the node itself and its descendants). *)
Fixpoint elements (n : Node) : list Node :=
  match n with
  | NElem _ _ _ cs => n :: concat (map elements cs)
  | NArray l => concat (map elements l)
  | NFragment l => concat (map elements l)
  | _ => []
  end.

(** The text an element displays: its text leaves, left to right. *)
Fixpoint text_of (n : Node) : list string :=
  match n with
  | NText s => [s]
  | NElem _ _ _ cs => concat (map text_of cs)
  | NArray l => concat (map text_of l)
  | NFragment l => concat (map text_of l)
  | _ => []
  end.

End Jsx.

(** ** Data model (lines 14-26) *)

Inductive GroupType := channel | member.

Record SearchItem := {
  icon : ReactNode;
  name : string;
  id : string;
}.

Record SearchGroup := {
  label : string;
  type : GroupType;
  data : option (list SearchItem);   (* an array, or undefined *)
}.

(** ** JavaScript operators used by the view *)

(** [a?.length]: [undefined] when [a] is [undefined]. *)
Definition opt_length {A} (a : option (list A)) : option nat :=
  length <$> a.

(** [!v] for [v] a number or [undefined]: true exactly when [v] is falsy,
    that is [undefined] or [0]. *)
Definition js_not (v : option nat) : bool :=
  match v with
  | None => true
  | Some 0 => true
  | Some (S _) => false
  end.

(** A JSX child expression [{e}] where [e] is an array or [undefined]. *)
Definition child_of_array (e : option (list Node)) : Node :=
  match e with
  | None => NUndefined
  | Some l => NArray l
  end.

(** ** The JSX literals of the source

    Each literal is written once, with holes for the expressions in braces,
    and is shared by the view and by the effectful component below. *)

(** Lines 56-59: [<CommandItem key={id}>{icon}<span>{name}</span></CommandItem>]. *)
Definition CommandItem_jsx (id : string) (icon : ReactNode) (name : string) : Node :=
  NElem (Comp CommandItem) (Some id) []
    [ NOpaque icon;
      NElem (Host "span") None [] [NText name] ].

(** Lines 53-62: [<CommandGroup key={label} heading={label}>{rows}</CommandGroup>]. *)
Definition CommandGroup_jsx (label : string) (rows : option (list Node)) : Node :=
  NElem (Comp CommandGroup) (Some label) [("heading", PStr label)]
    [ child_of_array rows ].

(** Lines 33-44. *)
Definition trigger : Node :=
  NElem (Host "button") None
    [ ("onClick", PFun Cb_setOpen_true);
      ("className", PStr "group px-2 py-2 rounded-md flex items-center gap-x-2 hover:bg-zinc-700/10 dark:hover:bg-zinc-700/50 transition") ]
    [ NElem (Comp SearchIcon) None
        [("className", PStr "w-4 h-4 text-zinc-500 dark:text-zinc-400")] [];
      NElem (Host "p") None
        [("className", PStr "font-semibold dark:text-zinc-400 group-hover:text-zinc-600 dark:group-hover:text-zinc-300 transition")]
        [NText "Search"];
      NElem (Host "kbd") None
        [("className", PStr "pointer-event-none inline-flex h-5 select-none items-center gap-1 rounded border bg-muted px-1.5 font-mono text-[10px] font-medium text-muted-foreground ml-auto")]
        [ NElem (Host "span") None [("className", PStr "text-xs")] [NText "⌘"];
          NText "K" ] ].

(** Line 46. *)
Definition search_input : Node :=
  NElem (Comp CommandInput) None
    [("placeholder", PStr "Search all channels and members")] [].

(** Line 48. *)
Definition empty_state : Node :=
  NElem (Comp CommandEmpty) None [] [NText "No Result found"].

(** Lines 47-49. *)
Definition results_list : Node :=
  NElem (Comp CommandList) None [] [ empty_state ].

(** Lines 45-65: the dialog, with the array built by [data.map] as its
    third child, after the [CommandList]. *)
Definition CommandDialog_jsx (open : bool) (groups : list Node) : Node :=
  NElem (Comp CommandDialog) None
    [ ("open", PBool open); ("onOpenChange", PFun Cb_setOpen) ]
    [ search_input; results_list; NArray groups ].

(** ** The view: the JSX expression of lines 31-67, as a function of the
    props and of the current value of [open] *)

(** Lines 54-61, the callback of the inner [map]. *)
Definition render_item (it : SearchItem) : Node :=
  CommandItem_jsx (id it) (icon it) (name it).

(** Lines 50-64, the callback of the outer [map]. *)
Definition render_group (g : SearchGroup) : Node :=
  if js_not (opt_length (data g)) then NNull
  else CommandGroup_jsx (label g) (map render_item <$> data g).

Definition ServerSearch_view (groups : list SearchGroup) (open : bool) : Node :=
  NFragment [ trigger; CommandDialog_jsx open (map render_group groups) ].

(** ** The component with its effects written out

    A render reads the props from the heap, reads or initialises the hook
    cell, and may throw.  [M] threads the store and stops at the first
    exception. *)

Inductive JsError := TypeError (msg : string).

Inductive result (A : Type) :=
  | Ok (a : A)
  | Throw (e : JsError).
Arguments Ok {A} a.
Arguments Throw {A} e.

Record Store := {
  heap_data : list SearchGroup;            (* the array the caller passed as [data] *)
  hook_open : option bool;                 (* the [useState] cell, [None] before mount *)
  listeners : list (string * Callback);    (* document-level listeners added by effects *)
}.

Definition M (A : Type) : Type := Store -> result (A * Store).

Global Instance M_ret : MRet M := fun A a s => Ok (a, s).
Global Instance M_bind : MBind M := fun A B k m s =>
  match m s with
  | Ok (a, s') => k a s'
  | Throw e => Throw e
  end.

Definition throw {A} (e : JsError) : M A := fun _ => Throw e.

(** The destructured prop [data] (line 28). *)
Definition get_data : M (list SearchGroup) := fun s => Ok (heap_data s, s).

(** [useState(init)]: the cell is initialised on the first render and read
    on every later one. *)
Definition useState (init : bool) : M bool := fun s =>
  match hook_open s with
  | Some v => Ok (v, s)
  | None => Ok (init, {| heap_data := heap_data s;
                         hook_open := Some init;
                         listeners := listeners s |})
  end.

(** [a.length]: a member access, which throws on [undefined]. *)
Definition member_length {A} (a : option (list A)) : M nat :=
  match a with
  | Some l => mret (length l)
  | None => throw (TypeError "Cannot read properties of undefined (reading 'length')")
  end.

(** [a.map(f)]: throws on [undefined]; otherwise calls [f] on each element
    from left to right and collects the results in a new array. *)
Definition member_map {A B} (a : option (list A)) (f : A -> M B) : M (list B) :=
  match a with
  | Some l => mapM f l
  | None => throw (TypeError "Cannot read properties of undefined (reading 'map')")
  end.

(** [a?.rest]: [undefined] when [a] is [undefined], without evaluating
    [rest]. *)
Definition opt_chain {A B} (a : option A) (rest : M B) : M (option B) :=
  match a with
  | None => mret None
  | Some _ => v ← rest; mret (Some v)
  end.

(** Lines 28-68. *)
Definition ServerSearch : M Node :=
  groups ← get_data;
  open ← useState false;
  rendered ← member_map (Some groups) (fun g =>
    len ← opt_chain (data g) (member_length (data g));
    if js_not len then mret NNull
    else
      rows ← opt_chain (data g)
                (member_map (data g) (fun it =>
                   mret (CommandItem_jsx (id it) (icon it) (name it))));
      mret (CommandGroup_jsx (label g) rows));
  mret (NFragment [ trigger; CommandDialog_jsx open rendered ]).

(** The store before the first render of an instance. *)
Definition fresh (groups : list SearchGroup) : Store :=
  {| heap_data := groups; hook_open := None; listeners := [] |}.

(** The store of a mounted instance whose flag is [open]. *)
Definition mounted (groups : list SearchGroup) (open : bool) : Store :=
  {| heap_data := groups; hook_open := Some open; listeners := [] |}.

(** ** Interaction *)

(** What a handler is called with. *)
Inductive JsArg :=
  | AEvent              (* a DOM event object *)
  | ABool (b : bool).

(** Calling one of the component's closures on the current flag gives the
    flag's next value.  [setOpen] is only ever handed to [onOpenChange],
    whose argument is a boolean. *)
Definition call (cb : Callback) (arg : JsArg) (open : bool) : bool :=
  match cb, arg with
  | Cb_setOpen_true, _ => true
  | Cb_setOpen, ABool b => b
  | Cb_setOpen, AEvent => open
  end.

Inductive DismissReason := Escape | OutsideClick | Selection.

(** What a user can do to a mounted instance.  [KeyPress] is a key event as
    the component's own handlers would see it; what the dialog primitive
    makes of a key (escape) reaches the component as a [Dismiss]. *)
Inductive Gesture :=
  | ClickTrigger                            (* a click on the trigger button *)
  | KeyPress (key : string) (meta : bool)   (* a key, with or without ⌘ *)
  | SelectItem (key : string)               (* choosing the row with this key *)
  | Dismiss (r : DismissReason).            (* dismissing the dialog *)

Global Instance DismissReason_eq_dec : EqDecision DismissReason.
Proof. solve_decision. Defined.
Global Instance Gesture_eq_dec : EqDecision Gesture.
Proof. solve_decision. Defined.

(** Modelled from the spec: the dialog primitive behind [CommandDialog]
    ([../ui/command], a UI primitive the component imports).  Its contract, as
    far as the specification states it: while it is open, the user
    dismissing it (escape, outside click, or a selection) is reported to
    [onOpenChange] as [false]; a closed dialog is not rendered and reports
    nothing. *)
Definition CommandDialog_reports (open : bool) (r : DismissReason) : option bool :=
  if open then Some false else None.

Definition keyboard_props : list string := ["onKeyDown"; "onKeyUp"; "onKeyPress"].

(** The handler calls a gesture causes, found in the rendered tree. *)
Definition on_element (g : Gesture) (e : Node) : list (Callback * JsArg) :=
  let ps := Jsx.props_of e in
  match g with
  | ClickTrigger =>
      if Jsx.is_tag (Host "button") e then
        match Jsx.prop "onClick" ps with
        | Some (PFun cb) => [(cb, AEvent)]
        | _ => []
        end
      else []
  | KeyPress _ _ =>
      omap (fun x => match Jsx.prop x ps with
                     | Some (PFun cb) => Some (cb, AEvent)
                     | _ => None
                     end) keyboard_props
  | SelectItem k =>
      if Jsx.is_tag (Comp CommandItem) e && bool_decide (Jsx.key_of e = Some k) then
        match Jsx.prop "onSelect" ps with
        | Some (PFun cb) => [(cb, AEvent)]
        | _ => []
        end
      else []
  | Dismiss r =>
      if Jsx.is_tag (Comp CommandDialog) e then
        match Jsx.prop "open" ps, Jsx.prop "onOpenChange" ps with
        | Some (PBool o), Some (PFun cb) =>
            match CommandDialog_reports o r with
            | Some b => [(cb, ABool b)]
            | None => []
            end
        | _, _ => []
        end
      else []
  end.

Definition dispatch (tree : Node) (g : Gesture) : list (Callback * JsArg) :=
  concat (map (on_element g) (Jsx.elements tree)).

Definition keyboard_events : list string := ["keydown"; "keyup"; "keypress"].

(** The calls a gesture causes among the document-level listeners. *)
Definition dispatch_global (ls : list (string * Callback)) (g : Gesture)
  : list (Callback * JsArg) :=
  match g with
  | KeyPress _ _ =>
      omap (fun l => if bool_decide (fst l ∈ keyboard_events)
                     then Some (snd l, AEvent) else None) ls
  | _ => []
  end.

Definition run_calls (calls : list (Callback * JsArg)) (open : bool) : bool :=
  fold_left (fun o c => call (fst c) (snd c) o) calls open.

(** One gesture on a mounted instance: the handlers of the current tree and
    the listeners of the store run, and the flag they leave is the state of
    the next render. *)
Definition step (groups : list SearchGroup) (open : bool) (g : Gesture) : bool :=
  run_calls (dispatch (ServerSearch_view groups open) g
             ++ dispatch_global (listeners (mounted groups open)) g) open.

(** ** Reading a rendered tree *)

(** The elements of a tree that carry a given tag, in document order. *)
Definition find_elements (t : Tag) (tree : Node) : list Node :=
  filter (fun e => Jsx.tag_of e = Some t) (Jsx.elements tree).

(** What the dialog shows: the laid-out children of the [CommandDialog]
    elements of the tree. *)
Definition dialog_children (tree : Node) : list Node :=
  find_elements (Comp CommandDialog) tree ≫= Jsx.children_of.

(** Whether the dialog of a rendered tree is open: the [open] prop handed to
    its [CommandDialog]. *)
Definition dialog_open (tree : Node) : option PropValue :=
  match find_elements (Comp CommandDialog) tree with
  | [d] => Jsx.prop "open" (Jsx.props_of d)
  | _ => None
  end.

(** The groups the dialog shows. *)
Definition shown_groups (tree : Node) : list Node :=
  filter (fun e => Jsx.tag_of e = Some (Comp CommandGroup)) (dialog_children tree).

(** The item rows of a group element. *)
Definition rows_of (group : Node) : list Node :=
  filter (fun e => Jsx.tag_of e = Some (Comp CommandItem)) (Jsx.children_of group).

(** The results area: what the [CommandList] elements of the tree contain. *)
Definition results_area (tree : Node) : list Node :=
  find_elements (Comp CommandList) tree ≫= Jsx.children_of.

(** A rendered group as a reader sees it: its key, its heading, and for
    each row its key and the text it displays. *)
Definition group_summary (e : Node)
  : option string * option PropValue * list (option string * list string) :=
  (Jsx.key_of e, Jsx.prop "heading" (Jsx.props_of e),
   map (fun r => (Jsx.key_of r, Jsx.text_of r)) (rows_of e)).

(** ** The input, as the specification speaks of it *)

(** A group has items when its item sequence is present and not empty. *)
Definition has_items (g : SearchGroup) : bool :=
  match data g with
  | Some (_ :: _) => true
  | _ => false
  end.

Definition items_of (g : SearchGroup) : list SearchItem :=
  default [] (data g).

(** The flattened item list of the input. *)
Definition all_items (groups : list SearchGroup) : list SearchItem :=
  groups ≫= items_of.

(** What a reader expects to see of a group. *)
Definition expected_summary (g : SearchGroup)
  : option string * option PropValue * list (option string * list string) :=
  (Some (label g), Some (PStr (label g)),
   map (fun it => (Some (id it), [name it])) (items_of g)).

(** An element none of whose props is a function. *)
Definition inert (e : Node) : Prop :=
  Forall (fun xv => forall cb, snd xv ≠ PFun cb) (Jsx.props_of e).

(** The keys of the item rows a tree shows, group after group. *)
Definition rendered_item_keys (tree : Node) : list string :=
  shown_groups tree ≫= (fun e => omap Jsx.key_of (rows_of e)).

(** What holds of every element a group contributes: none of its props is
    a function, it is neither the dialog, the results list nor a button,
    and an item row has no props at all. *)
Definition below_group (e : Node) : Prop :=
  inert e /\ Jsx.tag_of e ≠ Some (Comp CommandDialog)
  /\ Jsx.tag_of e ≠ Some (Comp CommandList)
  /\ Jsx.tag_of e ≠ Some (Host "button")
  /\ (Jsx.tag_of e = Some (Comp CommandItem) -> Jsx.props_of e = []).

(** Sample inputs. *)
Definition text_channels : SearchGroup :=
  {| label := "Text Channels"; type := channel;
     data := Some [ {| icon := 0; name := "general"; id := "1" |};
                    {| icon := 0; name := "random"; id := "2" |} ] |}.

Definition no_members : SearchGroup :=
  {| label := "Members"; type := member; data := Some [] |}.

Definition absent_members : SearchGroup :=
  {| label := "Members"; type := member; data := None |}.

(** ** Sessions: renders and gestures in sequence *)

(** [setOpen(v)] (line 29): the setter writes the hook cell and nothing
    else. *)
Definition setOpen (v : bool) (s : Store) : Store :=
  {| heap_data := heap_data s; hook_open := Some v; listeners := listeners s |}.

(** Calling one of the component's closures in a store. *)
Definition call_in (cb : Callback) (arg : JsArg) (s : Store) : Store :=
  match cb, arg with
  | Cb_setOpen_true, _ => setOpen true s
  | Cb_setOpen, ABool b => setOpen b s
  | Cb_setOpen, AEvent => s
  end.

(** A session: the component renders, the user makes a gesture, the
    handlers found in the tree just rendered (and the listeners of the
    store) run, and the component renders again; the result is the last
    tree and the store it leaves.  A render that throws ends the session. *)
Fixpoint session (gestures : list Gesture) (s : Store) {struct gestures}
  : result (Node * Store) :=
  match ServerSearch s with
  | Throw e => Throw e
  | Ok (tree, s1) =>
      match gestures with
      | [] => Ok (tree, s1)
      | g :: rest =>
          session rest
            (fold_left (fun s' c => call_in (fst c) (snd c) s')
               (dispatch tree g ++ dispatch_global (listeners s1) g) s1)
      end
  end.

(** The flag after a sequence of gestures on a mounted instance. *)
Definition flag_after (groups : list SearchGroup) (gestures : list Gesture)
  (open : bool) : bool :=
  fold_left (step groups) gestures open.

(** The value the last click on the trigger or dismissal of a sequence asks
    for, if the sequence has one. *)
Fixpoint last_setting (gestures : list Gesture) : option bool :=
  match gestures with
  | [] => None
  | g :: rest =>
      match last_setting rest with
      | Some b => Some b
      | None =>
          match g with
          | ClickTrigger => Some true
          | Dismiss _ => Some false
          | KeyPress _ _ | SelectItem _ => None
          end
      end
  end.

(** What the output can tell of a group: its label and its items. *)
Definition visible_part (g : SearchGroup) : string * list SearchItem :=
  (label g, items_of g).

(** Sample inputs: two groups that share an item id. *)
Definition voice_channels : SearchGroup :=
  {| label := "Voice Channels"; type := channel;
     data := Some [ {| icon := 1; name := "lounge"; id := "1" |} ] |}.

Definition text_channels_as_members : SearchGroup :=
  {| label := "Text Channels"; type := member; data := data text_channels |}.

(** ** Facts about the view *)

Section view_facts.
Implicit Types (g : SearchGroup) (gs : list SearchGroup) (it : SearchItem).

Lemma render_group_without_items g :
  has_items g = false -> render_group g = NNull.
Proof.
  unfold has_items, render_group.
  destruct (data g) as [[|it its]|]; simpl; congruence.
Qed.

Lemma render_group_with_items g :
  has_items g = true ->
  render_group g = CommandGroup_jsx (label g) (Some (map render_item (items_of g))).
Proof.
  unfold has_items, render_group, items_of.
  destruct (data g) as [[|it its]|]; simpl; congruence.
Qed.

Lemma has_items_false g :
  has_items g = false <-> data g = None \/ data g = Some [].
Proof.
  unfold has_items. destruct (data g) as [[|it its]|]; simpl; split;
    intros H; try done; auto; destruct H; congruence.
Qed.

Lemma flatten_render_group g :
  Jsx.flatten (render_group g) = if has_items g then [render_group g] else [].
Proof.
  destruct (has_items g) eqn:E.
  - by rewrite (render_group_with_items g E).
  - by rewrite (render_group_without_items g E).
Qed.

Lemma laid_out_groups gs :
  Jsx.laid_out (map render_group gs) = map render_group (filter has_items gs).
Proof.
  unfold Jsx.laid_out. induction gs as [|g gs IH]; [done|].
  simpl. rewrite IH, flatten_render_group.
  destruct (has_items g) eqn:E.
  - rewrite filter_cons_True; [done | by apply Is_true_true].
  - rewrite filter_cons_False; [done | by apply Is_true_false].
Qed.

Lemma laid_out_items (l : list SearchItem) :
  Jsx.laid_out (map render_item l) = map render_item l.
Proof.
  unfold Jsx.laid_out. induction l as [|it l IH]; [done|].
  simpl. by rewrite IH.
Qed.

Lemma elements_items (l : list SearchItem) :
  Forall below_group
    (concat (map Jsx.elements (map render_item l))).
Proof.
  induction l as [|it l IH]; simpl; [constructor|].
  repeat (constructor; [unfold below_group, inert; simpl; repeat split; try constructor; done|]).
  exact IH.
Qed.

Lemma elements_groups gs :
  Forall below_group
    (concat (map Jsx.elements (map render_group gs))).
Proof.
  induction gs as [|g gs IH]; simpl; [constructor|].
  apply Forall_app. split; [|exact IH].
  destruct (has_items g) eqn:E.
  - rewrite (render_group_with_items g E). simpl.
    constructor.
    + unfold below_group, inert; simpl. repeat split; try done.
      constructor; [|constructor]. simpl. done.
    + rewrite app_nil_r. apply elements_items.
  - rewrite (render_group_without_items g E). constructor.
Qed.

(** The elements of a rendered tree: the trigger and its three children
    (and the glyph's span), the dialog, its input, the results list with
    the empty-state element, and then whatever the groups contribute. *)
Lemma elements_view gs open :
  Jsx.elements (ServerSearch_view gs open) =
    Jsx.elements trigger ++
    [ CommandDialog_jsx open (map render_group gs);
      search_input;
      results_list;
      empty_state ] ++
    concat (map Jsx.elements (map render_group gs)).
Proof.
  unfold ServerSearch_view. simpl. by rewrite !app_nil_r.
Qed.

Lemma find_in_groups t gs :
  t = Comp CommandDialog \/ t = Comp CommandList \/ t = Host "button" ->
  filter (fun e => Jsx.tag_of e = Some t)
    (concat (map Jsx.elements (map render_group gs))) = [].
Proof.
  intros Ht. pose proof (elements_groups gs) as H.
  induction H as [|e l (_ & H1 & H2 & H3 & _) _ IH]; [done|].
  rewrite filter_cons, decide_False; [exact IH|].
  destruct Ht as [->|[->| ->]]; done.
Qed.

Lemma find_dialog gs open :
  find_elements (Comp CommandDialog) (ServerSearch_view gs open)
  = [CommandDialog_jsx open (map render_group gs)].
Proof.
  unfold find_elements. rewrite elements_view, !filter_app, find_in_groups by auto.
  reflexivity.
Qed.

Lemma find_list gs open :
  find_elements (Comp CommandList) (ServerSearch_view gs open) = [results_list].
Proof.
  unfold find_elements. rewrite elements_view, !filter_app, find_in_groups by auto.
  reflexivity.
Qed.

Lemma dialog_children_view gs open :
  dialog_children (ServerSearch_view gs open) =
    [ search_input;
      results_list ] ++ map render_group (filter has_items gs).
Proof.
  unfold dialog_children. rewrite find_dialog. simpl.
  rewrite !app_nil_r. change (concat (map Jsx.flatten ?l)) with (Jsx.laid_out l).
  by rewrite laid_out_groups.
Qed.

Lemma filter_rendered_groups (l : list SearchGroup) :
  Forall (fun g => has_items g = true) l ->
  filter (fun e => Jsx.tag_of e = Some (Comp CommandGroup)) (map render_group l)
  = map render_group l.
Proof.
  induction 1 as [|g l Hg _ IH]; [done|].
  simpl. rewrite filter_cons_True, IH; [done|].
  by rewrite (render_group_with_items g Hg).
Qed.

Lemma filter_has_items gs :
  Forall (fun g => has_items g = true) (filter has_items gs).
Proof.
  apply Forall_forall. intros g Hg.
  apply list_elem_of_filter in Hg as [Hg _]. by apply Is_true_true.
Qed.

Lemma shown_groups_view gs open :
  shown_groups (ServerSearch_view gs open) = map render_group (filter has_items gs).
Proof.
  unfold shown_groups. rewrite dialog_children_view. simpl.
  rewrite !filter_cons_False by done.
  apply filter_rendered_groups, filter_has_items.
Qed.

Lemma results_area_view gs open :
  results_area (ServerSearch_view gs open)
  = [empty_state].
Proof. unfold results_area. by rewrite find_list. Qed.

Lemma rows_of_group g :
  has_items g = true ->
  rows_of (render_group g) = map render_item (items_of g).
Proof.
  intros Hg. rewrite (render_group_with_items g Hg).
  unfold rows_of. cbn [Jsx.children_of CommandGroup_jsx child_of_array].
  unfold Jsx.laid_out at 1. cbn [map concat Jsx.flatten]. rewrite app_nil_r.
  change (concat (map Jsx.flatten ?l)) with (Jsx.laid_out l).
  rewrite laid_out_items.
  induction (items_of g) as [|it l IH]; [done|].
  simpl. by rewrite filter_cons_True, IH.
Qed.

Lemma group_summary_render g :
  has_items g = true ->
  group_summary (render_group g) = expected_summary g.
Proof.
  intros Hg. unfold group_summary, expected_summary.
  rewrite (rows_of_group g Hg), (render_group_with_items g Hg). simpl.
  f_equal. rewrite map_map. done.
Qed.

End view_facts.

(** ** Facts about the input *)

Lemma items_of_without_items g : has_items g = false -> items_of g = [].
Proof.
  unfold has_items, items_of. by destruct (data g) as [[|it its]|].
Qed.

(** Groups without items add nothing to the flattened item list. *)
Lemma all_items_filter gs : all_items (filter has_items gs) = all_items gs.
Proof.
  unfold all_items. induction gs as [|g gs IH]; [done|].
  rewrite bind_cons. destruct (has_items g) eqn:E.
  - rewrite filter_cons_True by (by apply Is_true_true).
    by rewrite bind_cons, IH.
  - rewrite filter_cons_False by (by apply Is_true_false).
    by rewrite (items_of_without_items g E), IH.
Qed.

Lemma all_items_nil gs : all_items gs = [] -> filter has_items gs = [].
Proof.
  unfold all_items. induction gs as [|g gs IH]; [done|].
  rewrite bind_cons. intros [Hg Hgs]%app_eq_nil.
  rewrite filter_cons_False; [by apply IH|].
  unfold has_items, items_of in *. destruct (data g) as [[|it its]|]; simpl in *; auto.
  discriminate.
Qed.

Lemma rendered_item_keys_view gs open :
  rendered_item_keys (ServerSearch_view gs open)
  = map id (all_items (filter has_items gs)).
Proof.
  unfold rendered_item_keys. rewrite shown_groups_view.
  pose proof (filter_has_items gs) as H.
  induction H as [|g l Hg _ IH]; [done|].
  unfold all_items in *. simpl map. rewrite !bind_cons, map_app, IH. f_equal.
  rewrite (rows_of_group g Hg).
  induction (items_of g) as [|it its IHi]; [done|].
  simpl. by rewrite <- IHi.
Qed.

(** ** The rendered groups *)

(** C1. A group whose item sequence is empty or absent contributes nothing
    to the output: its callback returns [null], what the dialog shows is
    what it would show had the group not been in the input, and the groups
    shown are exactly those of the remaining groups that have items, each
    with its own heading and rows.  With [gs1] a single group and [gs2]
    empty this is the scenario of two groups of which the second has no
    items. *)
Theorem empty_group_not_rendered (gs1 gs2 : list SearchGroup) (g : SearchGroup) (open : bool) :
  data g = None \/ data g = Some [] ->
  render_group g = NNull /\
  dialog_children (ServerSearch_view (gs1 ++ g :: gs2) open)
    = dialog_children (ServerSearch_view (gs1 ++ gs2) open) /\
  map group_summary (shown_groups (ServerSearch_view (gs1 ++ g :: gs2) open))
    = map expected_summary (filter has_items (gs1 ++ gs2)).
Proof.
  intros Hg%has_items_false.
  assert (Hf : filter has_items (gs1 ++ g :: gs2) = filter has_items (gs1 ++ gs2)).
  { rewrite !filter_app, filter_cons_False; [done | by apply Is_true_false]. }
  split; [by apply render_group_without_items|].
  split.
  - by rewrite !dialog_children_view, Hf.
  - rewrite shown_groups_view, Hf, map_map.
    apply map_ext_Forall.
    eapply Forall_impl; [apply filter_has_items|].
    intros g' Hg'. by apply group_summary_render.
Qed.

(** The scenario of C1: two groups, the second with an empty items array. *)
Lemma empty_group_not_rendered_witness :
  (data no_members = None \/ data no_members = Some []) /\
  render_group no_members = NNull /\
  dialog_children (ServerSearch_view ([text_channels] ++ no_members :: []) true)
    = dialog_children (ServerSearch_view ([text_channels] ++ []) true) /\
  map group_summary
      (shown_groups (ServerSearch_view ([text_channels] ++ no_members :: []) true))
    = [ (Some "Text Channels", Some (PStr "Text Channels"),
         [ (Some "1", ["general"]); (Some "2", ["random"]) ]) ].
Proof.
  split; [right; reflexivity|].
  apply (empty_group_not_rendered [text_channels] [] no_members true).
  right; reflexivity.
Defined.

Example absent_group_not_rendered :
  shown_groups (ServerSearch_view [text_channels; absent_members] true)
  = [render_group text_channels].
Proof. reflexivity. Qed.

(** C9. Rendering keeps the order of the input: the groups shown are the
    groups with items in the order of the input (their labels form a
    sublist of the input's labels), and the rows of each are its items in
    the order of its item sequence. *)
Theorem render_preserves_order (gs : list SearchGroup) (open : bool) :
  map group_summary (shown_groups (ServerSearch_view gs open))
    = map expected_summary (filter has_items gs) /\
  sublist (filter has_items gs) gs.
Proof.
  split.
  - rewrite shown_groups_view, map_map.
    apply map_ext_Forall.
    eapply Forall_impl; [apply filter_has_items|].
    intros g Hg. by apply group_summary_render.
  - apply sublist_filter.
Qed.

(** C2. When the ids of the flattened input are pairwise distinct, the keys
    of the rendered item rows are exactly the ids of the items of the groups
    that have items (as a list, hence as a set), no key occurs twice, and
    every rendered group carries its label as key. *)
Theorem rendered_keys_are_item_ids (gs : list SearchGroup) (open : bool) :
  NoDup (map id (all_items gs)) ->
  let tree := ServerSearch_view gs open in
  rendered_item_keys tree = map id (all_items (filter has_items gs)) /\
  list_to_set (C := gset string) (rendered_item_keys tree)
    = list_to_set (map id (all_items (filter has_items gs))) /\
  NoDup (rendered_item_keys tree) /\
  map Jsx.key_of (shown_groups tree) = map (fun g => Some (label g)) (filter has_items gs).
Proof.
  intros Hnd tree. subst tree.
  rewrite rendered_item_keys_view.
  split; [done|]. split; [done|]. split.
  - by rewrite all_items_filter.
  - rewrite shown_groups_view, map_map.
    apply map_ext_Forall.
    eapply Forall_impl; [apply filter_has_items|].
    intros g Hg. by rewrite (render_group_with_items g Hg).
Qed.

Lemma rendered_keys_are_item_ids_witness :
  NoDup (map id (all_items [text_channels; no_members])) /\
  rendered_item_keys (ServerSearch_view [text_channels; no_members] true) = ["1"; "2"] /\
  map Jsx.key_of (shown_groups (ServerSearch_view [text_channels; no_members] true))
    = [Some "Text Channels"].
Proof.
  assert (H : NoDup (map id (all_items [text_channels; no_members]))).
  { apply (bool_decide_unpack _). vm_compute. exact I. }
  split; [exact H|].
  destruct (rendered_keys_are_item_ids [text_channels; no_members] true H)
    as (Hk & _ & _ & Hg).
  split; [exact Hk | exact Hg].
Defined.

(** C8. The grouped rows are siblings of the results list, not its
    children: a rendered tree has one [CommandList], its only child is the
    empty-state element whatever the input, no item row is among its
    descendants, and the groups follow it among the dialog's children. *)
Theorem rows_are_outside_the_results_list (gs : list SearchGroup) (open : bool) :
  let tree := ServerSearch_view gs open in
  find_elements (Comp CommandList) tree = [results_list] /\
  results_area tree = [empty_state] /\
  find_elements (Comp CommandItem) results_list = [] /\
  exists input,
    Jsx.tag_of input = Some (Comp CommandInput) /\
    find_elements (Comp CommandDialog) tree
      = [NElem (Comp CommandDialog) None
           [("open", PBool open); ("onOpenChange", PFun Cb_setOpen)]
           [input; results_list; NArray (map render_group gs)]] /\
    dialog_children tree = [input; results_list] ++ shown_groups tree.
Proof.
  intros tree. subst tree.
  split; [apply find_list|].
  split; [apply results_area_view|].
  split; [reflexivity|].
  exists search_input. split; [reflexivity|]. split.
  - rewrite find_dialog. reflexivity.
  - by rewrite dialog_children_view, shown_groups_view.
Qed.

Example rows_outside_list_with_items :
  results_area (ServerSearch_view [text_channels] true)
    = [empty_state] /\
  length (dialog_children (ServerSearch_view [text_channels] true)) = 3 /\
  map Jsx.key_of (shown_groups (ServerSearch_view [text_channels] true) ≫= rows_of)
    = [Some "1"; Some "2"].
Proof. repeat split. Qed.

(** C4. When the flattened item list is empty, the dialog shows the input
    and the results list and nothing else: no group is rendered, and the
    results list contains the empty-state element with its fixed text. *)
Theorem empty_input_shows_placeholder_only (gs : list SearchGroup) (open : bool) :
  all_items gs = [] ->
  let tree := ServerSearch_view gs open in
  results_area tree = [empty_state] /\
  results_area tree ≫= Jsx.text_of = ["No Result found"] /\
  shown_groups tree = [] /\
  filter (fun e => Jsx.tag_of e ≠ Some (Comp CommandInput)) (dialog_children tree)
    = [results_list].
Proof.
  intros H%all_items_nil tree. subst tree.
  rewrite results_area_view, shown_groups_view, dialog_children_view, H.
  repeat split.
Qed.

Lemma empty_input_shows_placeholder_only_witness :
  all_items [absent_members; no_members] = [] /\
  results_area (ServerSearch_view [absent_members; no_members] true) ≫= Jsx.text_of
    = ["No Result found"] /\
  shown_groups (ServerSearch_view [absent_members; no_members] true) = [].
Proof.
  split; [reflexivity|].
  destruct (empty_input_shows_placeholder_only [absent_members; no_members] true eq_refl)
    as (_ & Ht & Hg & _).
  split; [exact Ht | exact Hg].
Defined.

(** ** Running the component *)

Section run.

Lemma run_ret {A} (a : A) (s : Store) : (mret a : M A) s = Ok (a, s).
Proof. reflexivity. Qed.

Lemma run_bind {A B} (m : M A) (k : A -> M B) (s s' : Store) (a : A) :
  m s = Ok (a, s') -> (m ≫= k) s = k a s'.
Proof. intros H. unfold mbind, M_bind. by rewrite H. Qed.

(** [a.map(f)] with a callback that neither throws nor writes. *)
Lemma mapM_pure {A B} (f : A -> M B) (h : A -> B) (l : list A) (s : Store) :
  (forall x s', f x s' = Ok (h x, s')) ->
  mapM f l s = Ok (map h l, s).
Proof.
  intros Hf. induction l as [|x l IH]; [done|].
  change (mapM f (x :: l)) with (y ← f x; k ← mapM f l; mret (y :: k)).
  rewrite (run_bind _ _ s s (h x)) by apply Hf.
  by rewrite (run_bind _ _ s s (map h l)) by exact IH.
Qed.

(** The callback of the outer [map] returns what [render_group] says, in
    the store it was called in.  The two member accesses are reached only
    behind [?.], and the inner one only behind the guard of line 51. *)
Lemma group_callback_run (g : SearchGroup) (s : Store) :
  (len ← opt_chain (data g) (member_length (data g));
   if js_not len then mret NNull
   else
     rows ← opt_chain (data g)
               (member_map (data g) (fun it =>
                  mret (CommandItem_jsx (id it) (icon it) (name it))));
     mret (CommandGroup_jsx (label g) rows)) s
  = Ok (render_group g, s).
Proof.
  unfold render_group, opt_length.
  destruct (data g) as [[|it its]|]; try reflexivity.
  cbn [opt_chain member_length member_map length fmap option_fmap option_map js_not].
  erewrite run_bind; [|erewrite run_bind; apply run_ret].
  cbn [js_not].
  erewrite run_bind;
    [|erewrite run_bind; [apply run_ret | by apply (mapM_pure _ render_item)]].
  reflexivity.
Qed.

(** A render returns the view of the props at the current flag ([false]
    on the first render), initialises the hook cell, and leaves the rest
    of the store as it found it. *)
Lemma ServerSearch_run (s : Store) :
  ServerSearch s
  = Ok (ServerSearch_view (heap_data s) (default false (hook_open s)),
        {| heap_data := heap_data s;
           hook_open := Some (default false (hook_open s));
           listeners := listeners s |}).
Proof.
  unfold ServerSearch, ServerSearch_view.
  destruct s as [gs [o|] ls];
    (erewrite run_bind; [|reflexivity]);
    (erewrite run_bind; [|reflexivity]);
    (erewrite run_bind; [|apply (mapM_pure _ render_group), group_callback_run]);
    reflexivity.
Qed.

End run.

(** ** Dispatching gestures *)

Section dispatch_facts.

Lemma prop_inert (x : string) (ps : list (string * PropValue)) (cb : Callback) :
  Forall (fun xv => forall cb', snd xv ≠ PFun cb') ps ->
  Jsx.prop x ps ≠ Some (PFun cb).
Proof.
  induction 1 as [|[y v] ps Hv _ IH]; [done|].
  simpl. case_bool_decide; [|exact IH].
  intros [= ->]. by apply (Hv cb).
Qed.

(** An element without function-valued props answers no gesture. *)
Lemma on_element_inert (g : Gesture) (e : Node) :
  inert e -> on_element g e = [].
Proof.
  unfold inert. intros He.
  assert (Hp : forall x, match Jsx.prop x (Jsx.props_of e) with
                         | Some (PFun _) => False
                         | _ => True
                         end).
  { intros x. destruct (Jsx.prop x (Jsx.props_of e)) as [[| |cb]|] eqn:E; try done.
    by apply (prop_inert x _ cb He). }
  destruct g as [|k m|k|r]; unfold on_element.
  - pose proof (Hp "onClick") as H.
    destruct (Jsx.is_tag _ e); [|done].
    by destruct (Jsx.prop "onClick" _) as [[| |?]|].
  - unfold keyboard_props. cbn [omap list_omap].
    pose proof (Hp "onKeyDown") as H1.
    pose proof (Hp "onKeyUp") as H2.
    pose proof (Hp "onKeyPress") as H3.
    destruct (Jsx.prop "onKeyDown" _) as [[| |?]|];
      destruct (Jsx.prop "onKeyUp" _) as [[| |?]|];
      destruct (Jsx.prop "onKeyPress" _) as [[| |?]|]; done.
  - pose proof (Hp "onSelect") as H.
    destruct (_ && _); [|done].
    by destruct (Jsx.prop "onSelect" _) as [[| |?]|].
  - pose proof (Hp "onOpenChange") as H.
    destruct (Jsx.is_tag _ e); [|done].
    destruct (Jsx.prop "open" _) as [[| |?]|]; try done.
    by destruct (Jsx.prop "onOpenChange" _) as [[| |?]|].
Qed.

Lemma dispatch_groups (g : Gesture) (gs : list SearchGroup) :
  concat (map (on_element g) (concat (map Jsx.elements (map render_group gs)))) = [].
Proof.
  pose proof (elements_groups gs) as H.
  induction H as [|e l (He & _) _ IH]; [done|].
  simpl. by rewrite (on_element_inert g e He), IH.
Qed.

(** The handler calls each gesture causes on a rendered tree. *)
Lemma dispatch_view (gs : list SearchGroup) (open : bool) (g : Gesture) :
  dispatch (ServerSearch_view gs open) g =
    match g with
    | ClickTrigger => [(Cb_setOpen_true, AEvent)]
    | Dismiss _ => if open then [(Cb_setOpen, ABool false)] else []
    | KeyPress _ _ | SelectItem _ => []
    end.
Proof.
  unfold dispatch. rewrite elements_view, !map_app, !concat_app, dispatch_groups.
  destruct g, open; reflexivity.
Qed.

(** The transition table of the flag. *)
Lemma step_table (gs : list SearchGroup) (open : bool) (g : Gesture) :
  step gs open g =
    match g with
    | ClickTrigger => true
    | Dismiss _ => false
    | KeyPress _ _ | SelectItem _ => open
    end.
Proof.
  unfold step. rewrite dispatch_view.
  destruct g, open; reflexivity.
Qed.

Lemma handlers_groups (gs : list SearchGroup) :
  concat (map Jsx.handlers (map render_group gs)) = [].
Proof.
  induction gs as [|g gs IH]; [done|].
  simpl. rewrite IH, app_nil_r.
  destruct (has_items g) eqn:E.
  - rewrite (render_group_with_items g E). simpl.
    rewrite app_nil_r. induction (items_of g) as [|it l IHl]; [done|].
    simpl. exact IHl.
  - by rewrite (render_group_without_items g E).
Qed.

End dispatch_facts.

(** ** The open flag *)

(** C3. The state of an instance is the one boolean cell of [useState]; the
    first render finds it unset and leaves it [false] (Closed).  The table
    of [step] is the whole transition relation: a click on the trigger
    gives Open, a dismissal reported by the dialog gives Closed, and no
    other gesture changes the flag.  The dialog is handed the flag as its
    [open] prop, so it is not open while the state is Closed. *)
Theorem open_flag_state_machine (gs : list SearchGroup) :
  ServerSearch (fresh gs) = Ok (ServerSearch_view gs false, mounted gs false) /\
  (forall open,
     ServerSearch (mounted gs open) = Ok (ServerSearch_view gs open, mounted gs open)) /\
  step gs false ClickTrigger = true /\
  (forall r, step gs true (Dismiss r) = false) /\
  (forall open g,
     step gs open g = match g with
                      | ClickTrigger => true
                      | Dismiss _ => false
                      | KeyPress _ _ | SelectItem _ => open
                      end) /\
  (forall open, dialog_open (ServerSearch_view gs open) = Some (PBool open)) /\
  dialog_open (ServerSearch_view gs false) = Some (PBool false).
Proof.
  split; [apply ServerSearch_run|].
  split; [intros open; apply ServerSearch_run|].
  split; [apply step_table|].
  split; [intros r; apply step_table|].
  split; [apply step_table|].
  assert (H : forall open, dialog_open (ServerSearch_view gs open) = Some (PBool open)).
  { intros open. unfold dialog_open. by rewrite find_dialog. }
  split; [exact H | apply H].
Qed.

(** C5. The scenario of one group "Text Channels" holding the item
    "general" with id "1": the first render is closed, a click on the
    trigger opens the widget, and the open render shows exactly one group,
    headed "Text Channels", with exactly one row, keyed "1" and displaying
    "general" (after the item's icon, whatever it is). *)
Theorem one_group_scenario (ic : ReactNode) :
  let g := {| label := "Text Channels"; type := channel;
              data := Some [ {| icon := ic; name := "general"; id := "1" |} ] |} in
  ServerSearch (fresh [g]) = Ok (ServerSearch_view [g] false, mounted [g] false) /\
  step [g] false ClickTrigger = true /\
  dialog_open (ServerSearch_view [g] true) = Some (PBool true) /\
  map group_summary (shown_groups (ServerSearch_view [g] true))
    = [ (Some "Text Channels", Some (PStr "Text Channels"), [ (Some "1", ["general"]) ]) ] /\
  shown_groups (ServerSearch_view [g] true) ≫= rows_of
    = [ NElem (Comp CommandItem) (Some "1") []
          [ NOpaque ic; NElem (Host "span") None [] [NText "general"] ] ].
Proof.
  intros g. split; [apply ServerSearch_run|].
  repeat split.
Qed.

(** ** Failure and effects *)

(** The member accesses the component uses do throw on [undefined] when
    they are not guarded. *)
Example unguarded_access_throws (s : Store) :
  member_length (A := SearchItem) None s
    = Throw (TypeError "Cannot read properties of undefined (reading 'length')") /\
  member_map (A := SearchItem) (B := Node) None (fun _ => mret NNull) s
    = Throw (TypeError "Cannot read properties of undefined (reading 'map')").
Proof. split; reflexivity. Qed.

(** C6. A render is total: in every store, whatever the groups and whether
    their item sequences are present, empty or absent, it returns a tree
    and never throws. *)
Theorem render_never_fails (s : Store) :
  (exists tree s', ServerSearch s = Ok (tree, s')) /\
  (forall e, ServerSearch s ≠ Throw e).
Proof.
  rewrite ServerSearch_run. split; [eauto|]. intros e. discriminate.
Qed.

(** C7. Rendering is presentational: it leaves the input as it found it,
    no item row of the tree it returns carries a prop (so no selection
    callback), and selecting an item calls no handler of the component:
    the flag stays as it was. *)
Theorem rendering_is_presentational (s : Store) :
  exists tree s',
    ServerSearch s = Ok (tree, s') /\
    heap_data s' = heap_data s /\
    Forall (fun e => Jsx.props_of e = []) (find_elements (Comp CommandItem) tree) /\
    (forall open k, dispatch (ServerSearch_view (heap_data s) open) (SelectItem k) = []) /\
    (forall open k, step (heap_data s) open (SelectItem k) = open).
Proof.
  rewrite ServerSearch_run. do 2 eexists. split; [reflexivity|].
  split; [reflexivity|]. split; [|split].
  - apply Forall_forall. intros e [Ht He]%list_elem_of_filter.
    rewrite elements_view in He.
    apply elem_of_app in He as [He|He].
    { revert Ht. simpl in He. clear -He.
      repeat (apply elem_of_cons in He as [->|He]; [done|]).
      by apply elem_of_nil in He. }
    apply elem_of_app in He as [He|He].
    { revert Ht. clear -He.
      repeat (apply elem_of_cons in He as [->|He]; [done|]).
      by apply elem_of_nil in He. }
    pose proof (elements_groups (heap_data s)) as H.
    rewrite Forall_forall in H. destruct (H e He) as (_ & _ & _ & _ & Hp). auto.
  - intros open k. apply (dispatch_view _ open (SelectItem k)).
  - intros open k. apply (step_table _ open (SelectItem k)).
Qed.

Example rows_exist_and_have_no_props :
  map Jsx.props_of
      (find_elements (Comp CommandItem) (ServerSearch_view [text_channels] true))
  = [ []; [] ].
Proof. reflexivity. Qed.

(** C10. The glyph on the trigger is decoration.  The only functions in a
    rendered tree are the button's [onClick] and the dialog's
    [onOpenChange]; a render adds no document-level listener; a key press
    leaves the flag as it is in every state; and from Closed the flag
    becomes Open on a click on the trigger and on no other gesture. *)
Theorem trigger_click_is_the_only_opener (gs : list SearchGroup) :
  (forall open,
     Jsx.handlers (ServerSearch_view gs open)
     = [ (Host "button", "onClick", Cb_setOpen_true);
         (Comp CommandDialog, "onOpenChange", Cb_setOpen) ]) /\
  (forall s, exists tree s',
     ServerSearch s = Ok (tree, s') /\ listeners s' = listeners s) /\
  (forall open key meta, step gs open (KeyPress key meta) = open) /\
  (forall g, step gs false g = bool_decide (g = ClickTrigger)).
Proof.
  split; [|split; [|split]].
  - intros open. unfold ServerSearch_view. simpl.
    by rewrite handlers_groups.
  - intros s. rewrite ServerSearch_run. by do 2 eexists.
  - intros open key meta. apply (step_table gs open (KeyPress key meta)).
  - intros g. rewrite step_table. by destruct g.
Qed.

(** The dispatch does find handlers where there are some: a row with an
    [onSelect], or a button with an [onKeyDown], would be called. *)
Example dispatch_finds_handlers :
  on_element (SelectItem "1")
    (NElem (Comp CommandItem) (Some "1") [("onSelect", PFun Cb_setOpen_true)] [])
    = [(Cb_setOpen_true, AEvent)] /\
  on_element (KeyPress "k" true)
    (NElem (Host "button") None [("onKeyDown", PFun Cb_setOpen_true)] [])
    = [(Cb_setOpen_true, AEvent)] /\
  dispatch_global [("keydown", Cb_setOpen_true)] (KeyPress "k" true)
    = [(Cb_setOpen_true, AEvent)].
Proof. repeat split. Qed.

(** ** Further properties of the view *)

Lemma render_item_inj (a b : SearchItem) : render_item a = render_item b -> a = b.
Proof.
  destruct a, b. unfold render_item, CommandItem_jsx. simpl. congruence.
Qed.

Lemma map_render_item_inj (l k : list SearchItem) :
  map render_item l = map render_item k -> l = k.
Proof.
  revert k. induction l as [|a l IH]; intros [|b k]; cbn [map]; try done.
  intros H.
  assert (render_item a = render_item b /\ map render_item l = map render_item k)
    as [Hab Hlk] by (split; congruence).
  f_equal; [by apply render_item_inj | by apply IH].
Qed.

(** On groups with items, the rendered element and the visible part
    determine each other. *)
Lemma render_group_visible_part (g h : SearchGroup) :
  has_items g = true -> has_items h = true ->
  render_group g = render_group h <-> visible_part g = visible_part h.
Proof.
  intros Hg Hh.
  rewrite (render_group_with_items g Hg), (render_group_with_items h Hh).
  unfold visible_part, CommandGroup_jsx, child_of_array. split.
  - intros H.
    assert (label g = label h /\
            map render_item (items_of g) = map render_item (items_of h))
      as [Hl Hi] by (split; congruence).
    apply map_render_item_inj in Hi. congruence.
  - intros [= -> ->]. reflexivity.
Qed.

Lemma map_render_group_visible_part (l k : list SearchGroup) :
  Forall (fun g => has_items g = true) l ->
  Forall (fun g => has_items g = true) k ->
  map render_group l = map render_group k <-> map visible_part l = map visible_part k.
Proof.
  intros Hl. revert k. induction Hl as [|g l Hg _ IH]; intros k Hk.
  - destruct k; simpl; split; intros; done.
  - destruct Hk as [|h k Hh Hk]; simpl; [split; intros; done|].
    split; intros H.
    + assert (render_group g = render_group h /\
              map render_group l = map render_group k)
        as [H1 H2] by (split; congruence).
      f_equal; [by apply render_group_visible_part | by apply IH].
    + assert (visible_part g = visible_part h /\
              map visible_part l = map visible_part k)
        as [H1 H2] by (split; congruence).
      f_equal; [by apply render_group_visible_part | by apply IH].
Qed.

(** X1. What the dialog shows determines, and is determined by, the labels
    and the item lists of the groups that have items, in order.  The [type]
    of a group, the position and label of a group without items, and
    whether an item sequence is absent or empty make no difference. *)
Theorem dialog_shows_exactly_the_visible_part (gs1 gs2 : list SearchGroup) (open : bool) :
  dialog_children (ServerSearch_view gs1 open) = dialog_children (ServerSearch_view gs2 open)
  <-> map visible_part (filter has_items gs1) = map visible_part (filter has_items gs2).
Proof.
  rewrite !dialog_children_view.
  rewrite <- (map_render_group_visible_part _ _ (filter_has_items gs1) (filter_has_items gs2)).
  split; [|by intros ->].
  by intros H%app_inv_head.
Qed.

Example type_and_empty_groups_do_not_show :
  dialog_children (ServerSearch_view [absent_members; text_channels_as_members] true)
  = dialog_children (ServerSearch_view [text_channels; no_members] true).
Proof. reflexivity. Qed.




Lemma NoDup_map_Some {A} (l : list A) : NoDup (map Some l) <-> NoDup l.
Proof.
  change (map Some l) with (Some <$> l). apply (NoDup_fmap _).
Qed.

Lemma row_keys_of_group (g : SearchGroup) :
  has_items g = true ->
  map Jsx.key_of (rows_of (render_group g)) = map Some (map id (items_of g)).
Proof.
  intros Hg. rewrite (rows_of_group g Hg), !map_map. reflexivity.
Qed.

(** X3. Keys are distinct among siblings exactly when the input is distinct
    where it matters: the keys of the groups shown are pairwise distinct
    iff the labels of the groups with items are, and the row keys inside
    every group shown are pairwise distinct iff the ids inside every group
    are.  Nothing is deduplicated, a group without items never clashes, and
    an id shared by two groups gives no clash among siblings. *)
Theorem sibling_keys_distinct_iff (gs : list SearchGroup) (open : bool) :
  let tree := ServerSearch_view gs open in
  (NoDup (map Jsx.key_of (shown_groups tree))
     <-> NoDup (map label (filter has_items gs))) /\
  (Forall (fun e => NoDup (map Jsx.key_of (rows_of e))) (shown_groups tree)
     <-> Forall (fun g => NoDup (map id (items_of g))) gs).
Proof.
  intros tree. subst tree. rewrite shown_groups_view. split.
  - assert (map Jsx.key_of (map render_group (filter has_items gs))
            = map Some (map label (filter has_items gs))) as ->.
    { rewrite !map_map. apply map_ext_Forall.
      eapply Forall_impl; [apply filter_has_items|].
      intros g Hg. by rewrite (render_group_with_items g Hg). }
    apply NoDup_map_Some.
  - rewrite Forall_map.
    induction gs as [|g gs IH]; [by rewrite filter_nil|].
    destruct (has_items g) eqn:E.
    + rewrite filter_cons_True by (by apply Is_true_true).
      rewrite !Forall_cons, IH.
      unfold compose. by rewrite (row_keys_of_group g E), NoDup_map_Some.
    + rewrite filter_cons_False by (by apply Is_true_false).
      rewrite Forall_cons, IH, (items_of_without_items g E).
      split; [intros H; split; [constructor | done] | by intros [_ H]].
Qed.

Example shared_id_across_groups :
  let tree := ServerSearch_view [text_channels; voice_channels] true in
  ~ NoDup (rendered_item_keys tree) /\
  Forall (fun e => NoDup (map Jsx.key_of (rows_of e))) (shown_groups tree).
Proof.
  split.
  - apply (bool_decide_eq_false_1 (NoDup _)). reflexivity.
  - apply (bool_decide_unpack _). reflexivity.
Qed.

(** X4. Groups are rendered independently of their neighbours: what is
    shown for a concatenated input is what is shown for the first part
    followed by what is shown for the second, for groups and for row keys
    alike. *)
Theorem rendering_distributes_over_append (gs1 gs2 : list SearchGroup) (open : bool) :
  shown_groups (ServerSearch_view (gs1 ++ gs2) open)
    = shown_groups (ServerSearch_view gs1 open)
      ++ shown_groups (ServerSearch_view gs2 open) /\
  rendered_item_keys (ServerSearch_view (gs1 ++ gs2) open)
    = rendered_item_keys (ServerSearch_view gs1 open)
      ++ rendered_item_keys (ServerSearch_view gs2 open).
Proof.
  split.
  - by rewrite !shown_groups_view, filter_app, map_app.
  - rewrite !rendered_item_keys_view, !all_items_filter.
    unfold all_items. by rewrite bind_app, map_app.
Qed.

(** ** Sessions *)

Lemma call_in_mounted (gs : list SearchGroup) (cb : Callback) (arg : JsArg) (open : bool) :
  call_in cb arg (mounted gs open) = mounted gs (call cb arg open).
Proof. by destruct cb, arg. Qed.

Lemma calls_in_mounted (gs : list SearchGroup) (calls : list (Callback * JsArg)) (open : bool) :
  fold_left (fun s' c => call_in (fst c) (snd c) s') calls (mounted gs open)
  = mounted gs (run_calls calls open).
Proof.
  revert open. induction calls as [|c calls IH]; intros open; [done|].
  simpl. by rewrite call_in_mounted, IH.
Qed.

Lemma ServerSearch_mounted (gs : list SearchGroup) (open : bool) :
  ServerSearch (mounted gs open) = Ok (ServerSearch_view gs open, mounted gs open).
Proof. apply ServerSearch_run. Qed.

Lemma ServerSearch_fresh (gs : list SearchGroup) :
  ServerSearch (fresh gs) = Ok (ServerSearch_view gs false, mounted gs false).
Proof. apply ServerSearch_run. Qed.

Lemma session_mounted (gs : list SearchGroup) (tr : list Gesture) (open : bool) :
  session tr (mounted gs open)
  = Ok (ServerSearch_view gs (flag_after gs tr open), mounted gs (flag_after gs tr open)).
Proof.
  revert open. induction tr as [|g tr IH]; intros open.
  - cbn [session]. by rewrite ServerSearch_mounted.
  - cbn [session]. rewrite ServerSearch_mounted, calls_in_mounted.
    apply IH.
Qed.

(** X5. A whole session is safe.  From the first render of an instance,
    through any sequence of gestures with a render after each, no render
    throws, the input array in the store is the one the caller passed, no
    listener is added, and the tree on screen is the view at the flag the
    gestures lead to, which is also what the hook cell holds. *)
Theorem session_never_fails (gs : list SearchGroup) (tr : list Gesture) :
  session tr (fresh gs)
  = Ok (ServerSearch_view gs (flag_after gs tr false),
        mounted gs (flag_after gs tr false)).
Proof.
  rewrite <- session_mounted.
  destruct tr as [|g tr]; cbn [session];
    by rewrite ServerSearch_fresh, ServerSearch_mounted.
Qed.

(** X6. The flag after any sequence of gestures is decided by the last
    click on the trigger or dismissal in it: Open after a click, Closed
    after a dismissal, and unchanged when the sequence has neither.  Key
    presses and selections, wherever they occur, never matter. *)
Theorem flag_follows_last_setting (gs : list SearchGroup) (tr : list Gesture) (open : bool) :
  flag_after gs tr open = default open (last_setting tr).
Proof.
  unfold flag_after. revert open. induction tr as [|g tr IH]; intros open; [done|].
  cbn [fold_left last_setting]. rewrite IH, step_table.
  destruct (last_setting tr) as [b|]; [done|]. by destruct g.
Qed.

Example session_click_keys_escape :
  session [ClickTrigger; KeyPress "k" true; SelectItem "1"; Dismiss Escape; KeyPress "k" true]
          (fresh [text_channels])
  = Ok (ServerSearch_view [text_channels] false, mounted [text_channels] false).
Proof. reflexivity. Qed.

(** X7. No heading is shown without rows: every group the dialog shows has
    at least one row, as many rows as the group has items, and carries its
    key as its heading. *)
Theorem shown_groups_are_never_empty (gs : list SearchGroup) (open : bool) :
  Forall (fun e => rows_of e ≠ [] /\
                   Jsx.prop "heading" (Jsx.props_of e) = PStr <$> Jsx.key_of e)
    (shown_groups (ServerSearch_view gs open)) /\
  map (fun e => length (rows_of e)) (shown_groups (ServerSearch_view gs open))
    = map (fun g => length (items_of g)) (filter has_items gs).
Proof.
  rewrite shown_groups_view. split.
  - apply Forall_map. eapply Forall_impl; [apply filter_has_items|].
    intros g Hg. unfold compose. rewrite (rows_of_group g Hg). split.
    + unfold has_items, items_of in *. by destruct (data g) as [[|it its]|].
    + by rewrite (render_group_with_items g Hg).
  - rewrite map_map. apply map_ext_Forall.
    eapply Forall_impl; [apply filter_has_items|].
    intros g Hg. by rewrite (rows_of_group g Hg), length_map.
Qed.

(** X8. Rendering again without a gesture in between changes nothing: in
    any store, the store a render leaves is a fixed point, and a second
    render in it returns the same tree. *)
Theorem render_is_idempotent (s : Store) :
  exists tree s1,
    ServerSearch s = Ok (tree, s1) /\ ServerSearch s1 = Ok (tree, s1).
Proof.
  do 2 eexists. split; [apply ServerSearch_run|].
  rewrite ServerSearch_run. reflexivity.
Qed.
